(** * The scripted A2A agent executor of [scripts/proper_a2a_agent.py]

    A shallow embedding of [SimpleAgentExecutor.execute] and
    [SimpleAgentExecutor.cancel], and of the way the two coroutines act on
    the event queue they are handed.

    - Progress values and sleep durations are Python float literals that are
      only passed along, never computed with; they are kept as the decimal
      fractions the source writes ([Q]).  Rounding a decimal to the nearest
      double is monotone and [1.0] is exact, so order and equality with
      [1.0] are the same on both sides.
    - A coroutine is the sequence of [await]s it performs.  Neither
      [execute] nor [cancel] reads anything back from an [await], so the
      sequence depends on the request context alone.
    - The event queue and [new_agent_text_message] belong to the a2a SDK;
      only what the executor does with them is modelled.
    - The rest of the module follows: [SimpleAgent.process_message], the
      two agent cards and the REST handler [handle_message_send].  The
      server set-up in [main] is input and output only and is left out. *)

From Stdlib Require Import List String Ascii Bool Arith Lia QArith.
From Stdlib Require Import Decimal DecimalString DecimalPos DecimalZ.
Import ListNotations.
Open Scope nat_scope.
Open Scope string_scope.

Set Implicit Arguments.

(** ** Request context *)

(** The context is probed with [hasattr]; an attribute that may be missing
    (or hold a falsy object) is an [option]. *)

Record Part := { text : option string }.

Record RequestMessage := {
  content : option string;
  parts : option (list Part)
}.

Record Request := { message : option RequestMessage }.

Record RequestContext := {
  request : option Request;
  request_id : string
}.

(** ** Events *)

Inductive TaskState := Created | Running | Completed | Cancelled | Failed.

(** The string the executor writes under the key ["state"]. *)
Definition state_name (s : TaskState) : string :=
  match s with
  | Created => "created"
  | Running => "running"
  | Completed => "completed"
  | Cancelled => "cancelled"
  | Failed => "failed"
  end.

Definition terminal (s : TaskState) : bool :=
  match s with
  | Completed | Cancelled | Failed => true
  | Created | Running => false
  end.

Record Status := {
  state : TaskState;
  progress : Q;
  status_message : string
}.

Record Metadata := {
  created_at : string;
  size : nat
}.

Record Artifact := {
  artifact_id : string;
  artifact_name : string;
  artifact_type : string;
  artifact_content : string;
  metadata : Metadata
}.

(** What [new_agent_text_message] returns: an agent message holding one
    text part.  The executor passes the text alone, so the helper's
    [context_id] and [task_id] keep their default [None]. *)
Record AgentMessage := {
  role : string;
  message_text : string;
  context_id : option string;
  task_id : option string
}.

Definition new_agent_text_message (t : string) : AgentMessage :=
  {| role := "agent"; message_text := t; context_id := None; task_id := None |}.

(** The three shapes the executor enqueues: two dict literals, tagged by
    their ["type"] key, and the SDK message object. *)
Inductive Event :=
| TaskStatusUpdate (taskId : string) (status : Status)
| ArtifactUpdate (taskId : string) (artifact : Artifact)
| Message (m : AgentMessage).

Definition event_type (e : Event) : string :=
  match e with
  | TaskStatusUpdate _ _ => "task-status-update"
  | ArtifactUpdate _ _ => "artifact-update"
  | Message _ => "message"
  end.

(** The [taskId] an event carries, if it carries one. *)
Definition event_task_id (e : Event) : option string :=
  match e with
  | TaskStatusUpdate t _ => Some t
  | ArtifactUpdate t _ => Some t
  | Message m => task_id m
  end.

(** ** Coroutines *)

Inductive Await :=
| enqueue_event (e : Event)     (* await event_queue.enqueue_event(e) *)
| sleep (seconds : Q)           (* await asyncio.sleep(seconds) *)
| close_queue.                  (* await event_queue.close() *)

Definition Coroutine := list Await.

(** ** Message extraction (lines 43-54) *)

Definition truthy (s : string) : bool :=
  match s with
  | EmptyString => false
  | String _ _ => true
  end.

Definition default_message : string := "Hello World from A2A Agent!".

Fixpoint text_parts (ps : list Part) : list string :=
  match ps with
  | [] => []
  | p :: ps' =>
      match text p with
      | Some t => if truthy t then t :: text_parts ps' else text_parts ps'
      | None => text_parts ps'
      end
  end.

Definition extract_message (context : RequestContext) : string :=
  match request context with
  | Some r =>
      match message r with
      | Some m =>
          match content m with
          | Some c => c
          | None =>
              match parts m with
              | Some ((_ :: _) as ps) =>
                  match text_parts ps with
                  | [] => default_message
                  | tp => String.concat " " tp
                  end
              | _ => default_message
              end
          end
      | None => default_message
      end
  | None => default_message
  end.

(** ** The script of [execute] (lines 56-144) *)

Definition nl : string := String "010"%char EmptyString.

Definition status_update (context : RequestContext) (s : TaskState) (p : Q)
    (msg : string) : Event :=
  TaskStatusUpdate (request_id context)
    {| state := s; progress := p; status_message := msg |}.

Inductive Response :=
| RMessage (content : string)
| RProgress (progress : Q) (message : string)
| RArtifact (content : string).

Definition streaming_responses (message : string) : list Response :=
  [ RMessage "🔍 I'm analyzing your request and gathering relevant context...";
    RProgress 0.5 "Processing data...";
    RMessage "📊 Found relevant information. Generating response...";
    RProgress 0.7 "Crafting response...";
    RMessage ("✨ **Response to '" ++ message ++ "':**" ++ nl ++ nl
      ++ "This is a comprehensive answer that demonstrates the A2A protocol streaming capabilities. The agent can:"
      ++ nl ++ nl ++ "• Process complex requests"
      ++ nl ++ "• Provide real-time updates"
      ++ nl ++ "• Stream responses progressively"
      ++ nl ++ "• Handle various message types");
    RArtifact "📄 Generated artifact: analysis_report.md";
    RProgress 0.9 "Finalizing response...";
    RMessage "✅ Task completed successfully! The agent has processed your request and provided a detailed response with streaming updates." ].

(** [enumerate], counting from [i]. *)
Fixpoint enumerate_from (A : Type) (i : nat) (l : list A) : list (nat * A) :=
  match l with
  | [] => []
  | x :: l' => (i, x) :: enumerate_from (S i) l'
  end.

Definition enumerate (A : Type) (l : list A) : list (nat * A) :=
  enumerate_from 0 l.

Definition str_of_nat (i : nat) : string :=
  NilEmpty.string_of_uint (Nat.to_uint i).

(** What one turn of the loop enqueues (lines 101-131). *)
Definition response_event (context : RequestContext) (message : string)
    (i : nat) (response : Response) : Event :=
  match response with
  | RMessage c => Message (new_agent_text_message c)
  | RProgress p m => status_update context Running p m
  | RArtifact _ =>
      ArtifactUpdate (request_id context)
        {| artifact_id := "artifact_" ++ str_of_nat i;
           artifact_name := "analysis_report.md";
           artifact_type := "text/markdown";
           artifact_content :=
             "# Analysis Report" ++ nl ++ nl ++ "Request: " ++ message ++ nl ++ nl
             ++ "This is a mock artifact generated by the A2A agent to demonstrate artifact streaming capabilities.";
           metadata := {| created_at := "2024-01-01T12:00:00Z"; size := 156 |} |}
  end.

(** One turn of the loop: the step boundary [sleep 0.6], then the event. *)
Definition loop_body (context : RequestContext) (message : string)
    (ir : nat * Response) : Coroutine :=
  [ sleep 0.6; enqueue_event (response_event context message (fst ir) (snd ir)) ].

Definition prologue (context : RequestContext) (message : string) : Coroutine :=
  [ enqueue_event (status_update context Running 0.1 "Task started - analyzing request");
    enqueue_event (Message (new_agent_text_message ("🤖 Processing your request: " ++ message)));
    sleep 0.8;
    enqueue_event (status_update context Running 0.3 "Gathering information...") ].

Definition work_loop (context : RequestContext) (message : string)
    (rs : list (nat * Response)) : Coroutine :=
  flat_map (loop_body context message) rs.

Definition epilogue (context : RequestContext) : Coroutine :=
  [ enqueue_event (status_update context Completed 1.0 "Task completed successfully") ].

Definition execute (context : RequestContext) : Coroutine :=
  let message := extract_message context in
  (prologue context message
   ++ work_loop context message (enumerate (streaming_responses message))
   ++ epilogue context)%list.

(** ** [cancel] (lines 146-148) *)

Definition cancel (context : RequestContext) : Coroutine :=
  [ enqueue_event (Message (new_agent_text_message "Task cancelled")) ].

(** ** Running a coroutine against the event queue *)

(** The queue as the executor sees it: the events in publish order, and
    whether [close] has been called on it. *)
Record EventQueue := {
  events : list Event;
  closed : bool
}.

Definition new_queue : EventQueue := {| events := []; closed := false |}.

(** One await on the queue.  The queue is the SDK's: an event enqueued
    after [close] is not added (the SDK's queue passes it over, the
    specification's channel refuses it). *)
Definition perform (q : EventQueue) (a : Await) : EventQueue :=
  match a with
  | enqueue_event e =>
      if closed q then q
      else {| events := events q ++ [e]; closed := closed q |}
  | sleep _ => q
  | close_queue => {| events := events q; closed := true |}
  end.

(** A coroutine none of whose awaits raises. *)
Definition run_all (c : Coroutine) (q : EventQueue) : EventQueue :=
  fold_left perform c q.

(** How a call of [execute] ends: it returns, or an exception leaves it.
    The body of [execute] has no [try], so whatever an [await] raises goes
    straight to the caller. *)
Inductive Outcome :=
| Returned
| Raised (exn : string).

(** What the surroundings do during one call of [execute]:
    [raises n] is the exception the [n]-th await raises, if it raises
    (the queue refusing an event, [asyncio.sleep] interrupted);
    [cancels n] is the number of times the request handler calls [cancel]
    on the same queue while [execute], having completed [n] awaits, is
    suspended.  [cancel] has no guard, so any number of calls may come at
    any point, also after [execute] is done. *)
Record Env := {
  raises : nat -> option string;
  cancels : nat -> nat
}.

Definition quiet : Env := {| raises := fun _ => None; cancels := fun _ => 0 |}.

(** [k] calls of [cancel], one after the other. *)
Definition cancel_times (context : RequestContext) (k : nat)
    (q : EventQueue) : EventQueue :=
  Nat.iter k (run_all (cancel context)) q.

(** The queue after the request handler had its turn, [execute] being
    suspended at its [n]-th await: every [cancel] due runs to its end. *)
Definition deliver (env : Env) (context : RequestContext) (n : nat)
    (q : EventQueue) : EventQueue :=
  cancel_times context (cancels env n) q.

Fixpoint run_from (env : Env) (context : RequestContext) (n : nat)
    (c : Coroutine) (q : EventQueue) {struct c} : Outcome * EventQueue :=
  match c with
  | [] => (Returned, deliver env context n q)
  | a :: k =>
      match raises env n with
      | Some exn => (Raised exn, deliver env context n q)
      | None => run_from env context (S n) k (perform (deliver env context n q) a)
      end
  end.

(** One task execution: [execute] on a fresh queue. *)
Definition task_execution (env : Env) (context : RequestContext)
    : Outcome * EventQueue :=
  run_from env context 0 (execute context) new_queue.

(** ** Observations on a queue *)

(** The events a coroutine enqueues, in order. *)
Fixpoint emitted (c : Coroutine) : list Event :=
  match c with
  | [] => []
  | enqueue_event e :: k => e :: emitted k
  | _ :: k => emitted k
  end.

Definition closes (a : Await) : bool :=
  match a with close_queue => true | _ => false end.

Definition never_closes (c : Coroutine) : bool :=
  forallb (fun a => negb (closes a)) c.

Fixpoint statuses (evs : list Event) : list Status :=
  match evs with
  | [] => []
  | TaskStatusUpdate _ s :: evs' => s :: statuses evs'
  | _ :: evs' => statuses evs'
  end.

Definition progress_values (evs : list Event) : list Q :=
  map progress (statuses evs).

Fixpoint last_opt (A : Type) (l : list A) : option A :=
  match l with
  | [] => None
  | [x] => Some x
  | _ :: l' => last_opt l'
  end.

(** The state of the task as the events tell it: that of the latest status
    update, [Created] before the first. *)
Definition task_state (evs : list Event) : TaskState :=
  match last_opt (statuses evs) with
  | Some s => state s
  | None => Created
  end.

Definition is_terminal_update (e : Event) : bool :=
  match e with
  | TaskStatusUpdate _ s => terminal (state s)
  | _ => false
  end.

Definition is_status (e : Event) : bool :=
  match e with TaskStatusUpdate _ _ => true | _ => false end.

Definition is_message (e : Event) : bool :=
  match e with Message _ => true | _ => false end.

Definition is_artifact (e : Event) : bool :=
  match e with ArtifactUpdate _ _ => true | _ => false end.

Definition has_state (s : TaskState) (e : Event) : bool :=
  match e with
  | TaskStatusUpdate _ st =>
      match state st, s with
      | Created, Created | Running, Running | Completed, Completed
      | Cancelled, Cancelled | Failed, Failed => true
      | _, _ => false
      end
  | _ => false
  end.

Fixpoint nondecreasing (l : list Q) : Prop :=
  match l with
  | x :: ((y :: _) as l') => (x <= y)%Q /\ nondecreasing l'
  | _ => True
  end.

(** The sequence ends at the value [v]. *)
Definition ends_at (l : list Q) (v : Q) : Prop :=
  match last_opt l with
  | Some p => (p == v)%Q
  | None => False
  end.

Definition count (A : Type) (f : A -> bool) (l : list A) : nat :=
  List.length (filter f l).

Definition cancel_notice : Event :=
  Message (new_agent_text_message "Task cancelled").

Definition notes_cancellation (e : Event) : bool :=
  match e with
  | Message m => String.eqb (message_text m) "Task cancelled"
  | _ => false
  end.

(** The events that follow the first cancellation notice (none when there
    is no notice). *)
Fixpoint after_cancel (evs : list Event) : list Event :=
  match evs with
  | [] => []
  | e :: evs' => if notes_cancellation e then evs' else after_cancel evs'
  end.

(** The environment in which the [n]-th await raises [exn] and nothing
    else happens. *)
Definition failing_at (n : nat) (exn : string) : Env :=
  {| raises := fun m => if Nat.eqb m n then Some exn else None;
     cancels := fun _ => 0 |}.

(** The environment in which [cancel] is called once, after [n] awaits,
    and no await raises. *)
Definition cancelling_at (n : nat) : Env :=
  {| raises := fun _ => None;
     cancels := fun m => if Nat.eqb m n then 1 else 0 |}.

(** A context whose message has the content ["ping"]. *)
Definition ping : RequestContext :=
  {| request := Some {| message := Some {| content := Some "ping"; parts := None |} |};
     request_id := "task-1" |}.


(** An event of a work step: anything but a terminal status update and a
    cancellation notice. *)
Definition work_event (e : Event) : bool :=
  negb (is_terminal_update e) && negb (notes_cancellation e).

(** The six status updates of the script, in order. *)
Definition scripted_statuses : list Status :=
  [ {| state := Running; progress := 0.1; status_message := "Task started - analyzing request" |};
    {| state := Running; progress := 0.3; status_message := "Gathering information..." |};
    {| state := Running; progress := 0.5; status_message := "Processing data..." |};
    {| state := Running; progress := 0.7; status_message := "Crafting response..." |};
    {| state := Running; progress := 0.9; status_message := "Finalizing response..." |};
    {| state := Completed; progress := 1.0; status_message := "Task completed successfully" |} ].

(** The events that follow the first terminal status update. *)
Fixpoint after_terminal (evs : list Event) : list Event :=
  match evs with
  | [] => []
  | e :: evs' => if is_terminal_update e then evs' else after_terminal evs'
  end.

(** Exactly one terminal status update, and nothing published after it. *)
Definition one_terminal_update_and_it_is_last (evs : list Event) : Prop :=
  count is_terminal_update evs = 1 /\ after_terminal evs = [].

Fixpoint artifacts (evs : list Event) : list Artifact :=
  match evs with
  | [] => []
  | ArtifactUpdate _ a :: evs' => a :: artifacts evs'
  | _ :: evs' => artifacts evs'
  end.

(** ** The specification's sentences that the executor does not meet,
    as predicates on an execution *)

(** An exception is turned into a Failed status update, [execute] returns
    and the queue is closed. *)
Definition failure_is_reported (r : Outcome * EventQueue) : Prop :=
  fst r = Returned
  /\ task_state (events (snd r)) = Failed
  /\ closed (snd r) = true.

(** A cancelled task ends in the state Cancelled and its queue is closed. *)
Definition cancellation_takes_effect (r : Outcome * EventQueue) : Prop :=
  task_state (events (snd r)) = Cancelled
  /\ closed (snd r) = true.

(** No work step publishes anything once the cancellation is there. *)
Definition stops_working_after_cancel (evs : list Event) : Prop :=
  count work_event (after_cancel evs) = 0.

(** The first event is a Running status update with progress [p]. *)
Definition starts_running_at (p : Q) (evs : list Event) : Prop :=
  match evs with
  | TaskStatusUpdate _ s :: _ => state s = Running /\ (progress s == p)%Q
  | _ => False
  end.

Definition carries_task_id (context : RequestContext) (e : Event) : Prop :=
  event_task_id e = Some (request_id context).

(** The last event is a Completed status update with progress 1.0 and the
    queue is closed. *)
Definition last_is_completed (evs : list Event) : Prop :=
  match last_opt evs with
  | Some (TaskStatusUpdate _ s) => state s = Completed /\ (progress s == 1.0)%Q
  | _ => False
  end.

Definition completes_and_closes (q : EventQueue) : Prop :=
  last_is_completed (events q) /\ closed q = true.

Definition enqueues_thirteen_events (evs : list Event) : Prop :=
  List.length evs = 13
  /\ count is_status evs = 6
  /\ count is_message evs = 6
  /\ count is_artifact evs = 1.

(** ** The rest of the module *)

(** [SimpleAgent.process_message] (lines 30-32).  The executor creates a
    [SimpleAgent] in [__init__] and never calls it. *)
Definition process_message (message : string) : string :=
  "Processed: " ++ message.

(** A context whose message has no [content] attribute and the given
    [parts]. *)
Definition context_with_parts (rid : string) (ps : list Part) : RequestContext :=
  {| request := Some {| message := Some {| content := None; parts := Some ps |} |};
     request_id := rid |}.

(** *** Agent cards (lines 151-210) *)

(** The SDK's card types, with the fields the module fills in. *)
Record AgentSkill := {
  skill_id : string;
  skill_name : string;
  skill_description : string;
  skill_tags : list string;
  skill_examples : list string
}.


Record AgentCapabilities := {
  streaming : bool;
  pushNotifications : bool
}.

Record AgentCard := {
  name : string;
  description : string;
  url : string;
  version : string;
  defaultInputModes : list string;
  defaultOutputModes : list string;
  capabilities : AgentCapabilities;
  skills : list AgentSkill
}.

(** How an f-string prints an [int]. *)
Definition str_of_int (z : Z) : string :=
  NilZero.string_of_int (Z.to_int z).

Definition create_agent_card (port : Z) : AgentCard :=
  let skill :=
    {| skill_id := "simple_chat";
       skill_name := "Simple Chat";
       skill_description :=
         "A simple chat agent that can respond to messages and provide basic assistance";
       skill_tags := ["chat"; "assistant"; "simple"];
       skill_examples := ["Hello, how are you?"; "Can you help me?"; "What time is it?"] |} in
  {| name := "Simple A2A Agent";
     description :=
       "A simple agent that demonstrates A2A protocol implementation with streaming support";
     url := "http://localhost:" ++ str_of_int port ++ "/";
     version := "1.0.0";
     defaultInputModes := ["text"];
     defaultOutputModes := ["text"];
     capabilities := {| streaming := true; pushNotifications := false |};
     skills := [skill] |}.


(** *** The REST handler [handle_message_send] (lines 236-275) *)

#[warnings="-register-all"]
Inductive Json :=
| JNull
| JBool (b : bool)
| JNumber (z : Z)
| JString (s : string)
| JArray (items : list Json)
| JObject (fields : list (string * Json)).

(** [d[key]] on a dict literal; [None] stands for [KeyError]. *)
Fixpoint lookup (key : string) (fields : list (string * Json)) : option Json :=
  match fields with
  | [] => None
  | (k, v) :: fields' => if String.eqb k key then Some v else lookup key fields'
  end.

Record JSONResponse := {
  json : Json;
  status_code : Z
}.

(** The [except Exception as e] branch, [e] given by its [str(e)]. *)
Definition internal_error (e : string) : JSONResponse :=
  {| json :=
       JObject
         [ ("jsonrpc", JString "2.0");
           ("id", JString "error");
           ("error",
            JObject [ ("code", JNumber (-32603));
                      ("message", JString ("Internal error: " ++ e)) ]) ];
     status_code := 500 |}.

(** [str(KeyError(key))]. *)
Definition key_error (key : string) : string := "'" ++ key ++ "'".

(** [clock] is the text of [asyncio.get_event_loop().time()] as the
    f-string prints it; [parsed] is what [await request.json()] gives: the
    body, or the [str] of the exception it raised. *)
Definition handle_message_send (clock : string) (parsed : string + Json)
    : JSONResponse :=
  match parsed with
  | inl e => internal_error e
  | inr body =>
      let jsonrpc_request :=
        [ ("jsonrpc", JString "2.0");
          ("id", JString ("rest-" ++ clock));
          ("method", JString "message/send");
          ("params", body) ] in
      match lookup "id" jsonrpc_request with
      | Some request_id =>
          {| json :=
               JObject
                 [ ("jsonrpc", JString "2.0");
                   ("id", request_id);
                   ("result",
                    JObject
                      [ ("id", request_id);
                        ("status", JObject [("state", JString "accepted")]);
                        ("message",
                         JString "Task accepted and will be processed via A2A protocol") ]) ];
             status_code := 200 |}
      | None => internal_error (key_error "id")
      end
  end.

(** [j[k1][k2]...] on nested objects. *)
Fixpoint at_path (ks : list string) (j : Json) : option Json :=
  match ks with
  | [] => Some j
  | k :: ks' =>
      match j with
      | JObject fields =>
          match lookup k fields with
          | Some v => at_path ks' v
          | None => None
          end
      | _ => None
      end
  end.

Open Scope list_scope.
Unset Implicit Arguments.

(** * Properties *)

(** ** The message taken from the request *)

Example extract_message_content :
  extract_message ping = "ping".
Proof. reflexivity. Qed.

Example extract_message_parts :
  extract_message
    {| request :=
         Some {| message :=
                   Some {| content := None;
                           parts := Some [ {| text := Some "hello" |};
                                           {| text := Some EmptyString |};
                                           {| text := None |};
                                           {| text := Some "world" |} ] |} |};
       request_id := "task-2" |}
  = "hello world".
Proof. reflexivity. Qed.

Example extract_message_default :
  extract_message {| request := None; request_id := "task-3" |}
  = "Hello World from A2A Agent!".
Proof. reflexivity. Qed.

Example nondecreasing_rejects_a_drop :
  nondecreasing [0.1; 0.3; 0.3]%Q /\ ~ nondecreasing [0.1; 0.5; 0.3]%Q.
Proof.
  split.
  - repeat split; cbv; discriminate.
  - intros (_ & H & _). apply H. reflexivity.
Qed.

(** ** Scripts and queues *)

Section Scripts.

Lemma perform_closed (q : EventQueue) (a : Await) :
  closes a = false -> closed (perform q a) = closed q.
Proof.
  destruct a; cbn; intros H; try discriminate H; try reflexivity.
  destruct (closed q) eqn:E; [exact E|reflexivity].
Qed.

(** An open queue takes what is enqueued. *)
Lemma perform_events (q : EventQueue) (a : Await) :
  closed q = false -> events (perform q a) = events q ++ emitted [a].
Proof.
  intros H. destruct a; cbn; rewrite ?H, ?app_nil_r; reflexivity.
Qed.

Lemma perform_Forall (P : Event -> Prop) (q : EventQueue) (a : Await) :
  Forall P (emitted [a]) -> Forall P (events q) ->
  Forall P (events (perform q a)).
Proof.
  intros Ha Hq. destruct a; cbn; try exact Hq.
  destruct (closed q); [exact Hq|]. cbn. apply Forall_app. split; assumption.
Qed.

Lemma never_closes_cons (a : Await) (c : Coroutine) :
  never_closes (a :: c) = true -> closes a = false /\ never_closes c = true.
Proof.
  unfold never_closes. cbn. intros H. apply andb_true_iff in H as [Ha Hc].
  split; [apply negb_true_iff, Ha|exact Hc].
Qed.

(** A script that never closes the queue leaves an open queue open, with
    its events added at the end. *)
Lemma run_all_events (c : Coroutine) :
  never_closes c = true ->
  forall q, closed q = false ->
  closed (run_all c q) = false
  /\ events (run_all c q) = events q ++ emitted c.
Proof.
  induction c as [|a c IH]; intros Hc q Hq.
  - cbn. rewrite app_nil_r. split; [exact Hq|reflexivity].
  - apply never_closes_cons in Hc as [Ha Hc].
    change (run_all (a :: c) q) with (run_all c (perform q a)).
    destruct (IH Hc (perform q a)) as [H1 H2].
    { rewrite perform_closed by exact Ha. exact Hq. }
    split; [exact H1|]. rewrite H2, perform_events by exact Hq.
    rewrite <- app_assoc. destruct a; reflexivity.
Qed.

Lemma statuses_app (l1 l2 : list Event) :
  statuses (l1 ++ l2) = statuses l1 ++ statuses l2.
Proof.
  induction l1 as [|e l1 IH]; simpl; [reflexivity|].
  destruct e; simpl; rewrite IH; reflexivity.
Qed.

(** Cutting a script short cuts its status updates short. *)
Lemma statuses_emitted_firstn (c : Coroutine) :
  forall k, exists j,
    statuses (emitted (firstn k c)) = firstn j (statuses (emitted c)).
Proof.
  induction c as [|a c IH]; intros k.
  - exists 0. destruct k; reflexivity.
  - destruct k as [|k]; [exists 0; reflexivity|].
    destruct (IH k) as [j Hj]. simpl firstn.
    destruct a as [e| |]; simpl; try (exists j; exact Hj).
    destruct e; simpl; try (exists j; exact Hj).
    exists (S j). simpl. rewrite Hj. reflexivity.
Qed.

(** Where no status update is terminal, no event is a terminal update. *)
Lemma statuses_no_terminal (evs : list Event) :
  Forall (fun s => terminal (state s) = false) (statuses evs) ->
  Forall (fun e => is_terminal_update e = false) evs.
Proof.
  induction evs as [|e evs IH]; intros H; [constructor|].
  destruct e; cbn in H.
  - constructor; [exact (Forall_inv H)|exact (IH (Forall_inv_tail H))].
  - constructor; [reflexivity|exact (IH H)].
  - constructor; [reflexivity|exact (IH H)].
Qed.

Lemma filter_none (A : Type) (f : A -> bool) (l : list A) :
  Forall (fun x => f x = false) l -> filter f l = [].
Proof.
  induction 1 as [|x l Hx _ IH]; cbn; [reflexivity|]. rewrite Hx. exact IH.
Qed.

Lemma after_terminal_skip (before l : list Event) :
  Forall (fun e => is_terminal_update e = false) before ->
  after_terminal (before ++ l) = after_terminal l.
Proof.
  induction 1 as [|x before Hx _ IH]; cbn; [reflexivity|].
  rewrite Hx. exact IH.
Qed.

End Scripts.

(** ** What the surroundings can and cannot change *)

Section Runs.

Variable context : RequestContext.

(** One call of [cancel]: its notice goes on an open queue. *)
Lemma cancel_events (q : EventQueue) :
  events (run_all (cancel context) q)
  = if closed q then events q else events q ++ [cancel_notice].
Proof.
  unfold run_all. cbn. destruct (closed q); reflexivity.
Qed.

Lemma cancel_keeps_closed (q : EventQueue) :
  closed (run_all (cancel context) q) = closed q.
Proof.
  unfold run_all. cbn. destruct (closed q) eqn:E; [exact E|reflexivity].
Qed.

Lemma cancel_keeps_statuses (q : EventQueue) :
  statuses (events (run_all (cancel context) q)) = statuses (events q).
Proof.
  rewrite cancel_events. destruct (closed q); [reflexivity|].
  rewrite statuses_app. apply app_nil_r.
Qed.

Lemma cancel_times_succ (k : nat) (q : EventQueue) :
  cancel_times context (S k) q
  = run_all (cancel context) (cancel_times context k q).
Proof. reflexivity. Qed.

Lemma cancel_times_closed (k : nat) (q : EventQueue) :
  closed (cancel_times context k q) = closed q.
Proof.
  induction k as [|k IH]; [reflexivity|].
  rewrite cancel_times_succ, cancel_keeps_closed. exact IH.
Qed.

Lemma cancel_times_statuses (k : nat) (q : EventQueue) :
  statuses (events (cancel_times context k q)) = statuses (events q).
Proof.
  induction k as [|k IH]; [reflexivity|].
  rewrite cancel_times_succ, cancel_keeps_statuses. exact IH.
Qed.

(** [k] calls put [k] notices on an open queue. *)
Lemma cancel_times_events (k : nat) (q : EventQueue) :
  closed q = false ->
  events (cancel_times context k q) = events q ++ repeat cancel_notice k.
Proof.
  intros Hq. induction k as [|k IH].
  - symmetry. apply app_nil_r.
  - rewrite cancel_times_succ, cancel_events, cancel_times_closed, Hq, IH, <- app_assoc. f_equal.
    symmetry. apply repeat_cons.
Qed.

Lemma cancel_times_Forall (P : Event -> Prop) (k : nat) (q : EventQueue) :
  P cancel_notice -> Forall P (events q) ->
  Forall P (events (cancel_times context k q)).
Proof.
  intros Hn Hq. induction k as [|k IH]; [exact Hq|].
  rewrite cancel_times_succ, cancel_events.
  destruct (closed (cancel_times context k q)); [exact IH|].
  apply Forall_app. split; [exact IH|]. constructor; [exact Hn|constructor].
Qed.

Lemma deliver_statuses (env : Env) (n : nat) (q : EventQueue) :
  statuses (events (deliver env context n q)) = statuses (events q).
Proof. apply cancel_times_statuses. Qed.

Lemma deliver_closed (env : Env) (n : nat) (q : EventQueue) :
  closed (deliver env context n q) = closed q.
Proof. apply cancel_times_closed. Qed.

Lemma deliver_none (env : Env) (n : nat) (q : EventQueue) :
  cancels env n = 0 -> deliver env context n q = q.
Proof. intros H. unfold deliver. rewrite H. reflexivity. Qed.

Lemma deliver_due (n : nat) (q : EventQueue) :
  deliver (cancelling_at n) context n q = run_all (cancel context) q.
Proof. unfold deliver. cbn. rewrite Nat.eqb_refl. reflexivity. Qed.

Lemma deliver_not_due (m n : nat) (q : EventQueue) :
  m <> n -> deliver (cancelling_at m) context n q = q.
Proof.
  intros H. unfold deliver. cbn.
  destruct (Nat.eqb_spec n m); [congruence|reflexivity].
Qed.

(** With nothing raised and no cancellation the script runs through. *)
Lemma run_from_quiet (c : Coroutine) :
  forall n q, run_from quiet context n c q = (Returned, run_all c q).
Proof.
  induction c as [|a c IH]; intros n q; simpl; [reflexivity|].
  apply IH.
Qed.

(** Whatever the surroundings do, the status updates on the queue are
    those of an initial part of the script: of the whole script exactly
    when the run returns. *)
Lemma run_from_statuses (env : Env) (c : Coroutine) :
  never_closes c = true ->
  forall n q,
    closed q = false ->
    exists k,
      k <= List.length c
      /\ (fst (run_from env context n c q) = Returned <-> k = List.length c)
      /\ statuses (events (snd (run_from env context n c q)))
         = statuses (events q) ++ statuses (emitted (firstn k c)).
Proof.
  induction c as [|a c IH]; intros Hc n q Hq; cbn [run_from].
  - exists 0. split; [lia|]. split; [tauto|].
    cbn [snd firstn emitted statuses].
    rewrite deliver_statuses, app_nil_r. reflexivity.
  - apply never_closes_cons in Hc as [Ha Hc].
    destruct (raises env n) as [exn|].
    + exists 0. split; [simpl; lia|].
      split; [split; [discriminate|discriminate]|].
      cbn [snd firstn emitted statuses].
      rewrite deliver_statuses, app_nil_r. reflexivity.
    + assert (Hq' : closed (perform (deliver env context n q) a) = false)
        by (rewrite perform_closed, deliver_closed by exact Ha; exact Hq).
      destruct (IH Hc (S n) (perform (deliver env context n q) a) Hq')
        as (k & Hk & Hret & Hs).
      exists (S k). split; [simpl; lia|].
      split; [rewrite Hret; simpl; lia|]. rewrite Hs.
      rewrite perform_events by (rewrite deliver_closed; exact Hq).
      rewrite statuses_app, deliver_statuses, <- app_assoc. f_equal.
      rewrite <- statuses_app. destruct a; reflexivity.
Qed.

(** No script without a [close] closes the queue, in any surroundings. *)
Lemma run_from_closed (env : Env) (c : Coroutine) :
  never_closes c = true ->
  forall n q, closed (snd (run_from env context n c q)) = closed q.
Proof.
  induction c as [|a c IH]; intros H n q; cbn [run_from].
  - apply deliver_closed.
  - apply never_closes_cons in H as [Ha Hc].
    destruct (raises env n); [apply deliver_closed|].
    rewrite (IH Hc), perform_closed by exact Ha. apply deliver_closed.
Qed.

(** The first await that raises ends the run there: the exception goes
    to the caller and the queue holds what was enqueued before. *)
Lemma run_from_raise (env : Env) (exn : string) (c : Coroutine) :
  (forall n, cancels env n = 0) ->
  forall k n q,
    k < List.length c ->
    raises env (n + k) = Some exn ->
    (forall m, m < k -> raises env (n + m) = None) ->
    run_from env context n c q = (Raised exn, run_all (firstn k c) q).
Proof.
  intros Hc. induction c as [|a c IH]; intros k n q Hk Hr Hbefore;
    simpl in Hk; [lia|]. cbn [run_from]. rewrite deliver_none by apply Hc.
  destruct k as [|k].
  - rewrite Nat.add_0_r in Hr. rewrite Hr. reflexivity.
  - assert (H0 : raises env n = None).
    { rewrite <- (Hbefore 0) by lia. f_equal. lia. }
    rewrite H0. rewrite (IH k (S n) (perform q a)); [reflexivity|lia| |].
    + rewrite <- Hr. f_equal. lia.
    + intros m Hm. rewrite <- (Hbefore (S m)) by lia. f_equal. lia.
Qed.

(** Once the cancellation is behind, the script runs undisturbed. *)
Lemma run_from_past_cancel (m : nat) (c : Coroutine) :
  forall n q,
    m < n ->
    run_from (cancelling_at m) context n c q = (Returned, run_all c q).
Proof.
  induction c as [|a c IH]; intros n q Hn; cbn [run_from raises cancelling_at];
    rewrite deliver_not_due by lia.
  - reflexivity.
  - apply IH. lia.
Qed.

(** A cancellation while the script runs: [cancel] enqueues its notice
    and the script goes on as if nothing had happened. *)
Lemma run_from_cancel (c : Coroutine) :
  forall k n q,
    k <= List.length c ->
    run_from (cancelling_at (n + k)) context n c q
    = (Returned,
       run_all (skipn k c) (run_all (cancel context) (run_all (firstn k c) q))).
Proof.
  induction c as [|a c IH]; intros k n q Hk; simpl in Hk.
  - assert (k = 0) by lia. subst k. cbn [run_from].
    rewrite Nat.add_0_r, deliver_due. reflexivity.
  - cbn [run_from raises cancelling_at]. destruct k as [|k].
    + rewrite Nat.add_0_r, deliver_due.
      rewrite run_from_past_cancel by lia. reflexivity.
    + rewrite deliver_not_due by lia.
      replace (n + S k) with (S n + k) by lia.
      rewrite IH by lia. reflexivity.
Qed.

(** Every event on the queue comes from the script or is the notice
    of [cancel]. *)
Lemma run_from_Forall (P : Event -> Prop) (env : Env) (c : Coroutine) :
  Forall P (emitted c) ->
  Forall P (emitted (cancel context)) ->
  forall n q,
    Forall P (events q) ->
    Forall P (events (snd (run_from env context n c q))).
Proof.
  intros Hc Hcancel.
  assert (Hd : forall n q, Forall P (events q) ->
                           Forall P (events (deliver env context n q))).
  { intros n q Hq. apply cancel_times_Forall; [|exact Hq].
    exact (Forall_inv Hcancel). }
  induction c as [|a c IH]; intros n q Hq; cbn [run_from].
  - apply Hd, Hq.
  - destruct (raises env n); [apply Hd, Hq|].
    assert (Ha : Forall P (emitted [a]) /\ Forall P (emitted c)).
    { destruct a; cbn in *; repeat split; try constructor; try exact Hc.
      - exact (Forall_inv Hc).
      - constructor.
      - exact (Forall_inv_tail Hc). }
    apply IH; [apply Ha|]. apply perform_Forall; [apply Ha|apply Hd, Hq].
Qed.

(** A run that returns from a script ending with an [enqueue_event] has
    that event on the queue, followed only by the notices of the calls
    of [cancel] that came after the last await. *)
Lemma run_from_last (env : Env) (c : Coroutine) (e : Event) :
  never_closes c = true ->
  forall n q,
    closed q = false ->
    fst (run_from env context n (c ++ [enqueue_event e]) q) = Returned ->
    exists before,
      events (snd (run_from env context n (c ++ [enqueue_event e]) q))
      = before ++ e :: repeat cancel_notice (cancels env (S (n + List.length c)))
      /\ statuses before = statuses (events q) ++ statuses (emitted c).
Proof.
  induction c as [|a c IH]; intros Hc n q Hq Hret;
    rewrite <- ?app_comm_cons in *; rewrite ?app_nil_l in *;
    cbn [run_from] in *.
  - revert Hret. destruct (raises env n); intros Hret; [discriminate Hret|].
    exists (events (deliver env context n q)). cbn [snd List.length].
    rewrite Nat.add_0_r. split.
    + unfold deliver at 1. rewrite cancel_times_events.
      * rewrite perform_events by (rewrite deliver_closed; exact Hq).
        rewrite <- app_assoc. reflexivity.
      * rewrite perform_closed, deliver_closed by reflexivity. exact Hq.
    + rewrite deliver_statuses. symmetry. apply app_nil_r.
  - apply never_closes_cons in Hc as [Ha Hc].
    revert Hret. destruct (raises env n); intros Hret; [discriminate Hret|].
    assert (Hq' : closed (perform (deliver env context n q) a) = false)
      by (rewrite perform_closed, deliver_closed by exact Ha; exact Hq).
    destruct (IH Hc (S n) _ Hq' Hret) as (before & Hev & Hs).
    exists before. cbn [List.length]. rewrite Nat.add_succ_r. split; [exact Hev|].
    rewrite Hs, perform_events by (rewrite deliver_closed; exact Hq).
    rewrite statuses_app, deliver_statuses, <- app_assoc. f_equal.
    rewrite <- statuses_app. destruct a; reflexivity.
Qed.

End Runs.

(** ** The script of [execute] *)

Section Execute.

Variable context : RequestContext.

Lemma execute_length : List.length (execute context) = 21.
Proof. reflexivity. Qed.

Lemma execute_never_closes : never_closes (execute context) = true.
Proof. reflexivity. Qed.

Lemma execute_statuses :
  statuses (emitted (execute context)) = scripted_statuses.
Proof. reflexivity. Qed.

(** The script ends with the enqueue of the completion status. *)
Lemma execute_ends_with_completion :
  execute context
  = (prologue context (extract_message context)
     ++ work_loop context (extract_message context)
          (enumerate (streaming_responses (extract_message context))))
    ++ epilogue context.
Proof. unfold execute. rewrite app_assoc. reflexivity. Qed.

(** An undisturbed execution returns with the script's events on the
    queue, which is still open. *)
Lemma quiet_execution :
  task_execution quiet context
  = (Returned, {| events := emitted (execute context); closed := false |}).
Proof.
  unfold task_execution. rewrite run_from_quiet. reflexivity.
Qed.

(** In any surroundings the status updates on the queue are those of the
    awaits that were completed: all 21 of them exactly when [execute]
    returns. *)
Lemma execution_progress (env : Env) :
  exists k,
    k <= 21
    /\ (fst (task_execution env context) = Returned <-> k = 21)
    /\ statuses (events (snd (task_execution env context)))
       = statuses (emitted (firstn k (execute context))).
Proof.
  unfold task_execution.
  destruct (run_from_statuses context env (execute context)
              execute_never_closes 0 new_queue eq_refl) as (k & H).
  rewrite execute_length in H. exists k. exact H.
Qed.

(** In any surroundings the status updates on the queue are the first
    few of the six scripted ones. *)
Lemma execution_statuses (env : Env) :
  exists j,
    statuses (events (snd (task_execution env context)))
    = firstn j scripted_statuses.
Proof.
  destruct (execution_progress env) as (k & _ & _ & Hs).
  destruct (statuses_emitted_firstn (execute context) k) as [j Hj].
  exists j. rewrite Hs, Hj, execute_statuses. reflexivity.
Qed.

End Execute.

(** ** Progress *)

(** Splits on how many of the six status updates were published. *)
Ltac prefix_cases j n :=
  lazymatch n with
  | O => cbn; rewrite firstn_nil; cbn
  | S ?m => let j' := fresh "j" in destruct j as [|j']; [cbn|prefix_cases j' m]
  end.

(** C1. In every execution of a task, whatever is raised and whenever
    [cancel] is called, the progress values of the status updates on the
    queue are non-decreasing in publish order, and the sequence ends at
    exactly 1.0 if and only if the task has reached the state Completed. *)
Theorem progress_nondecreasing_ends_at_one_iff_completed
    (env : Env) (context : RequestContext) :
  nondecreasing (progress_values (events (snd (task_execution env context))))
  /\ (ends_at (progress_values (events (snd (task_execution env context)))) 1.0
      <-> task_state (events (snd (task_execution env context))) = Completed).
Proof.
  unfold progress_values, task_state.
  destruct (execution_statuses context env) as [j ->].
  prefix_cases j 6;
    (split; [repeat split; cbv; discriminate|]);
    (split; intros H; try discriminate H; try reflexivity;
     try (cbv in H; discriminate H); try contradiction).
Qed.

(** ** Terminal status updates *)

(** Splits on the number of awaits that were completed: [0], ..., [n - 1],
    and any larger number. *)
Ltac cancel_cases m n :=
  lazymatch n with
  | O => idtac
  | S ?k => let m' := fresh "m" in destruct m as [|m']; [|cancel_cases m' k]
  end.

Section Terminal.

Variable context : RequestContext.

(** An execution that is cut short has no terminal update on its queue. *)
Lemma raised_execution_has_no_terminal_update (env : Env) (exn : string) :
  fst (task_execution env context) = Raised exn ->
  Forall (fun e => is_terminal_update e = false)
    (events (snd (task_execution env context))).
Proof.
  intros Hout. destruct (execution_progress context env) as (k & Hk & Hret & Hs).
  apply statuses_no_terminal. rewrite Hs.
  assert (Hlt : k < 21).
  { destruct (Nat.eq_dec k 21) as [E|E]; [|lia].
    apply Hret in E. rewrite E in Hout. discriminate Hout. }
  clear - Hlt. cancel_cases k 21; solve [repeat constructor | lia].
Qed.

(** An execution that returns has the Completed update on its queue, after
    events none of which is terminal, and before the notices of the calls
    of [cancel] that came once [execute] was done. *)
Lemma returned_execution_ends_with_completion (env : Env) :
  fst (task_execution env context) = Returned ->
  exists before,
    events (snd (task_execution env context))
    = before
      ++ status_update context Completed 1.0 "Task completed successfully"
         :: repeat cancel_notice (cancels env 21)
    /\ Forall (fun e => is_terminal_update e = false) before.
Proof.
  unfold task_execution. rewrite execute_ends_with_completion. intros Hout.
  destruct (run_from_last context env
              (prologue context (extract_message context)
               ++ work_loop context (extract_message context)
                    (enumerate (streaming_responses (extract_message context))))
              (status_update context Completed 1.0 "Task completed successfully")
              eq_refl 0 new_queue eq_refl Hout)
    as (before & Hev & Hs).
  exists before. split; [exact Hev|].
  apply statuses_no_terminal. rewrite Hs. repeat constructor.
Qed.

Lemma no_terminal_notice (k : nat) :
  Forall (fun e => is_terminal_update e = false) (repeat cancel_notice k).
Proof. induction k; cbn; constructor; auto. Qed.

End Terminal.

(** C2, as amended.  In every execution of a task: when [execute] returns,
    exactly one terminal status update is on the queue, the one with state
    Completed and progress 1.0; [execute] publishes nothing after it, and
    what follows it is one "Task cancelled" message for each call of
    [cancel] made once [execute] was done.  When an exception cuts the
    execution short, no terminal status update is on the queue. *)
Theorem terminal_update_exactly_when_returned
    (env : Env) (context : RequestContext) :
  filter is_terminal_update (events (snd (task_execution env context)))
  = match fst (task_execution env context) with
    | Returned =>
        [status_update context Completed 1.0 "Task completed successfully"]
    | Raised _ => []
    end
  /\ after_terminal (events (snd (task_execution env context)))
     = match fst (task_execution env context) with
       | Returned => repeat cancel_notice (cancels env 21)
       | Raised _ => []
       end.
Proof.
  destruct (fst (task_execution env context)) as [|exn] eqn:Hout.
  - destruct (returned_execution_ends_with_completion context env Hout)
      as (before & -> & Hbefore).
    split.
    + rewrite filter_app, (filter_none _ _ _ Hbefore). cbn. f_equal.
      apply filter_none, no_terminal_notice.
    + rewrite after_terminal_skip by exact Hbefore. reflexivity.
  - pose proof (raised_execution_has_no_terminal_update context env exn Hout)
      as Hnone.
    split; [apply filter_none, Hnone|].
    rewrite <- (app_nil_r (events _)), after_terminal_skip by exact Hnone.
    reflexivity.
Qed.

(** C2 as stated fails: when the await of the second work step raises, no
    terminal status update is published at all; and a [cancel] called after
    completion publishes its notice after the terminal update. *)
Lemma one_terminal_update_counterexample :
  ~ one_terminal_update_and_it_is_last
      (events (snd (task_execution (failing_at 7 "RuntimeError") ping)))
  /\ ~ one_terminal_update_and_it_is_last
      (events (snd (task_execution (cancelling_at 21) ping))).
Proof.
  split; intros [H1 H2]; [discriminate H1|discriminate H2].
Qed.

(** ** Exceptions *)

(** C3, as amended.  When an await of [execute] raises, the exception is
    not caught: it leaves [execute], no Failed status update is published,
    the executor does not close the queue, and the queue holds exactly
    the events enqueued before, none of a later step. *)
Theorem exception_leaves_execute
    (env : Env) (context : RequestContext) (k : nat) (exn : string) :
  (forall n, cancels env n = 0) ->
  k < 21 ->
  raises env k = Some exn ->
  (forall m, m < k -> raises env m = None) ->
  fst (task_execution env context) = Raised exn
  /\ events (snd (task_execution env context))
     = emitted (firstn k (execute context))
  /\ count (has_state Failed) (events (snd (task_execution env context))) = 0
  /\ closed (snd (task_execution env context)) = false.
Proof.
  intros Hc Hk Hr Hbefore. unfold task_execution.
  rewrite (@run_from_raise context env exn (execute context) Hc k 0 new_queue);
    [|rewrite execute_length; exact Hk|exact Hr|exact Hbefore].
  cbn [fst snd]. clear Hc Hr Hbefore.
  repeat split; cancel_cases k 21; solve [reflexivity | lia].
Qed.

Lemma exception_leaves_execute_witness :
  fst (task_execution (failing_at 7 "RuntimeError") ping) = Raised "RuntimeError"
  /\ events (snd (task_execution (failing_at 7 "RuntimeError") ping))
     = emitted (firstn 7 (execute ping))
  /\ count (has_state Failed)
       (events (snd (task_execution (failing_at 7 "RuntimeError") ping))) = 0
  /\ closed (snd (task_execution (failing_at 7 "RuntimeError") ping)) = false.
Proof.
  apply (exception_leaves_execute (failing_at 7 "RuntimeError") ping 7 "RuntimeError").
  - intros n. reflexivity.
  - lia.
  - reflexivity.
  - intros m Hm. cbn. destruct (Nat.eqb_spec m 7); [lia|reflexivity].
Defined.

(** C3 as stated fails: with the await of the second work step raising,
    the exception leaves [execute], the task is left in the state Running
    and the queue open. *)
Lemma failure_is_reported_counterexample :
  fst (task_execution (failing_at 7 "RuntimeError") ping) = Raised "RuntimeError"
  /\ task_state (events (snd (task_execution (failing_at 7 "RuntimeError") ping)))
     = Running
  /\ closed (snd (task_execution (failing_at 7 "RuntimeError") ping)) = false
  /\ ~ failure_is_reported (task_execution (failing_at 7 "RuntimeError") ping).
Proof.
  repeat split. intros [H _]. discriminate H.
Qed.

(** ** Cancellation *)

(** What is on the queue when [cancel] is called after [n] awaits of an
    execution in which nothing raises: the script's events, all of them,
    with the notice where the call came. *)
Lemma cancelled_execution (context : RequestContext) (n : nat) :
  n <= 21 ->
  task_execution (cancelling_at n) context
  = (Returned,
     run_all (skipn n (execute context))
       (run_all (cancel context)
          (run_all (firstn n (execute context)) new_queue))).
Proof.
  intros Hn. unfold task_execution.
  apply (@run_from_cancel context (execute context) n 0 new_queue).
  rewrite execute_length. exact Hn.
Qed.

(** C4, as amended.  When [cancel] is called at any point before the task
    completes and nothing raises, [cancel] publishes its notice and that is
    all: [execute] goes on, every event of its script is published in
    order, the task ends in the state Completed, no status update ever
    says Cancelled, and the executor does not close the queue. *)
Theorem cancelled_task_still_completes (context : RequestContext) (n : nat) :
  n < 21 ->
  fst (task_execution (cancelling_at n) context) = Returned
  /\ events (snd (task_execution (cancelling_at n) context))
     = emitted (firstn n (execute context))
       ++ cancel_notice :: emitted (skipn n (execute context))
  /\ task_state (events (snd (task_execution (cancelling_at n) context)))
     = Completed
  /\ count (has_state Cancelled)
       (events (snd (task_execution (cancelling_at n) context))) = 0
  /\ closed (snd (task_execution (cancelling_at n) context)) = false.
Proof.
  intros Hn. split; [|split].
  - rewrite cancelled_execution by lia. reflexivity.
  - cancel_cases n 21; solve [reflexivity | lia].
  - cancel_cases n 21; solve [repeat split | lia].
Qed.

Lemma cancelled_task_still_completes_witness :
  4 < 21
  /\ fst (task_execution (cancelling_at 4) ping) = Returned
  /\ events (snd (task_execution (cancelling_at 4) ping))
     = emitted (firstn 4 (execute ping))
       ++ cancel_notice :: emitted (skipn 4 (execute ping))
  /\ task_state (events (snd (task_execution (cancelling_at 4) ping)))
     = Completed
  /\ count (has_state Cancelled)
       (events (snd (task_execution (cancelling_at 4) ping))) = 0
  /\ closed (snd (task_execution (cancelling_at 4) ping)) = false.
Proof.
  split; [lia|].
  apply (cancelled_task_still_completes ping 4). lia.
Defined.

(** C4 as stated fails: with [cancel] called during the first step
    boundary, the task ends Completed and the queue stays open. *)
Lemma cancellation_takes_effect_counterexample :
  task_state (events (snd (task_execution (cancelling_at 4) ping))) = Completed
  /\ closed (snd (task_execution (cancelling_at 4) ping)) = false
  /\ ~ cancellation_takes_effect (task_execution (cancelling_at 4) ping).
Proof.
  repeat split. intros [H _]. discriminate H.
Qed.

(** C7, as amended.  [execute] never looks for a cancellation.  When
    [cancel] is called at the step boundary that opens the work step [i],
    that step and every later one still publish their events, followed by
    the Completed status update: nothing is observed at any boundary. *)
Theorem cancellation_is_not_observed (context : RequestContext) (i : nat) :
  i < 8 ->
  after_cancel (events (snd (task_execution (cancelling_at (4 + 2 * i)) context)))
  = emitted
      (work_loop context (extract_message context)
         (skipn i (enumerate (streaming_responses (extract_message context))))
       ++ epilogue context)
  /\ count work_event
       (after_cancel
          (events (snd (task_execution (cancelling_at (4 + 2 * i)) context))))
     = 8 - i.
Proof.
  intros Hi. cancel_cases i 8; solve [split; reflexivity | lia].
Qed.

Lemma cancellation_is_not_observed_witness :
  0 < 8
  /\ after_cancel (events (snd (task_execution (cancelling_at (4 + 2 * 0)) ping)))
     = emitted
         (work_loop ping (extract_message ping)
            (skipn 0 (enumerate (streaming_responses (extract_message ping))))
          ++ epilogue ping)
  /\ count work_event
       (after_cancel
          (events (snd (task_execution (cancelling_at (4 + 2 * 0)) ping))))
     = 8 - 0.
Proof.
  split; [lia|].
  apply (cancellation_is_not_observed ping 0). lia.
Defined.

(** C7 as stated fails: after a [cancel] called at the first step boundary,
    all eight work steps still publish their events. *)
Lemma stops_working_after_cancel_counterexample :
  ~ stops_working_after_cancel
      (events (snd (task_execution (cancelling_at 4) ping))).
Proof.
  intros H. discriminate H.
Qed.

(** C10.  For every request context, [cancel] enqueues exactly one event,
    the agent text message "Task cancelled": an open queue grows by this
    one message (a closed queue takes nothing any more).  It enqueues no
    status update, leaves the state of the task as it was, and does not
    close the queue. *)
Theorem cancel_only_enqueues_its_notice
    (context : RequestContext) (q : EventQueue) :
  emitted (cancel context) = [Message (new_agent_text_message "Task cancelled")]
  /\ events (run_all (cancel context) q)
     = (if closed q then events q
        else events q ++ [Message (new_agent_text_message "Task cancelled")])
  /\ count is_status (emitted (cancel context)) = 0
  /\ task_state (events (run_all (cancel context) q)) = task_state (events q)
  /\ closed (run_all (cancel context) q) = closed q.
Proof.
  split; [reflexivity|]. split; [apply cancel_events|].
  split; [reflexivity|]. split; [|apply cancel_keeps_closed].
  unfold task_state. rewrite cancel_keeps_statuses. reflexivity.
Qed.

(** ** The events of an undisturbed execution *)

(** C5, as amended.  The first event [execute] publishes is a status update
    with state Running and progress exactly 0.1. *)
Theorem first_event_is_running_at_one_tenth (context : RequestContext) :
  hd_error (events (snd (task_execution quiet context)))
  = Some (status_update context Running 0.1 "Task started - analyzing request")
  /\ starts_running_at 0.1 (events (snd (task_execution quiet context))).
Proof.
  rewrite quiet_execution. split; [reflexivity|].
  split; reflexivity.
Qed.

(** C5 as stated fails: the first status update carries 0.1, not 0.0. *)
Lemma starts_running_at_zero_counterexample :
  ~ starts_running_at 0.0 (events (snd (task_execution quiet ping))).
Proof.
  intros [_ H]. cbv in H. discriminate H.
Qed.

(** C6, as amended.  In every execution, every status update and every
    artifact update on the queue carries the context's [request_id] as its
    [taskId]; the agent text messages carry no task id. *)
Theorem task_id_on_updates_only (env : Env) (context : RequestContext) :
  Forall
    (fun e => event_task_id e
              = if is_message e then None else Some (request_id context))
    (events (snd (task_execution env context))).
Proof.
  unfold task_execution. apply run_from_Forall.
  - repeat constructor.
  - repeat constructor.
  - constructor.
Qed.

(** C6 as stated fails: the second event of an execution is an agent text
    message, and it carries no task id. *)
Lemma carries_task_id_counterexample :
  ~ Forall (carries_task_id ping) (events (snd (task_execution quiet ping))).
Proof.
  intros H. apply Forall_inv_tail, Forall_inv in H. discriminate H.
Qed.

(** C8, as amended.  When nothing disturbs the execution, [execute]
    returns and the last event on the queue is the status update with
    state Completed and progress exactly 1.0; the executor does not close
    the queue, in this or any other execution. *)
Theorem last_event_is_completed_and_queue_stays_open
    (env : Env) (context : RequestContext) :
  fst (task_execution quiet context) = Returned
  /\ last_opt (events (snd (task_execution quiet context)))
     = Some (status_update context Completed 1.0 "Task completed successfully")
  /\ last_is_completed (events (snd (task_execution quiet context)))
  /\ closed (snd (task_execution env context)) = false.
Proof.
  rewrite quiet_execution. repeat split.
  unfold task_execution.
  apply (run_from_closed context env (execute context) (execute_never_closes context) 0 new_queue).
Qed.

(** C8 as stated fails on its last part: after a successful execution the
    queue is still open. *)
Lemma completes_and_closes_counterexample :
  closed (snd (task_execution quiet ping)) = false
  /\ ~ completes_and_closes (snd (task_execution quiet ping)).
Proof.
  split; [reflexivity|]. intros [_ H]. discriminate H.
Qed.

(** C9, as amended.  For every request context, [execute] enqueues exactly
    12 events, in an order that does not depend on the request: 6 status
    updates with progress 0.1, 0.3, 0.5, 0.7, 0.9, 1.0, 5 agent text
    messages, and 1 artifact update, whose artifact has the id
    "artifact_5", the name "analysis_report.md" and the type
    "text/markdown". *)
Theorem execute_enqueues_twelve_events (context : RequestContext) :
  List.length (events (snd (task_execution quiet context))) = 12
  /\ map event_type (events (snd (task_execution quiet context)))
     = [ "task-status-update"; "message"; "task-status-update"; "message";
         "task-status-update"; "message"; "task-status-update"; "message";
         "artifact-update"; "task-status-update"; "message";
         "task-status-update" ]
  /\ progress_values (events (snd (task_execution quiet context)))
     = [0.1; 0.3; 0.5; 0.7; 0.9; 1.0]%Q
  /\ count is_status (events (snd (task_execution quiet context))) = 6
  /\ count is_message (events (snd (task_execution quiet context))) = 5
  /\ count is_artifact (events (snd (task_execution quiet context))) = 1
  /\ map (fun a => (artifact_id a, artifact_name a, artifact_type a))
       (artifacts (events (snd (task_execution quiet context))))
     = [("artifact_5", "analysis_report.md", "text/markdown")].
Proof.
  rewrite quiet_execution. repeat split.
Qed.

(** C9 as stated fails: there are 12 events, 5 of them messages. *)
Lemma enqueues_thirteen_events_counterexample :
  List.length (events (snd (task_execution quiet ping))) = 12
  /\ count is_message (events (snd (task_execution quiet ping))) = 5
  /\ ~ enqueues_thirteen_events (events (snd (task_execution quiet ping))).
Proof.
  repeat split. intros [H _]. discriminate H.
Qed.


(** * Further properties of the module *)

(** ** Strings *)

Section Strings.

Lemma append_length (s t : string) :
  String.length (s ++ t)%string = String.length s + String.length t.
Proof.
  induction s as [|c s IH]; simpl; [reflexivity|]. rewrite IH. reflexivity.
Qed.

Lemma append_inv_head (p s t : string) :
  (p ++ s)%string = (p ++ t)%string -> s = t.
Proof.
  induction p as [|c p IH]; simpl; intros H; [exact H|].
  injection H as H. apply IH, H.
Qed.

Lemma append_inv_tail (t : string) :
  forall s1 s2, (s1 ++ t)%string = (s2 ++ t)%string -> s1 = s2.
Proof.
  induction s1 as [|c s1 IH]; intros [|d s2] H; simpl in H.
  - reflexivity.
  - apply (f_equal String.length) in H. simpl in H.
    rewrite append_length in H. lia.
  - apply (f_equal String.length) in H. simpl in H.
    rewrite append_length in H. lia.
  - injection H as -> H. f_equal. apply IH, H.
Qed.

Lemma substring_all (s : string) :
  substring 0 (String.length s) s = s.
Proof.
  induction s as [|c s IH]; simpl; [reflexivity|]. rewrite IH. reflexivity.
Qed.

Lemma truthy_append (s t : string) :
  truthy s = true -> truthy (s ++ t)%string = true.
Proof. destruct s; simpl; [discriminate|reflexivity]. Qed.

End Strings.

(** ** [process_message] *)

(** X1.  The agent's answer is the message behind the eleven characters
    ["Processed: "]: cutting them off gives the message back, so different
    messages never get the same answer. *)
Theorem process_message_keeps_the_message (m m' : string) :
  substring 11 (String.length m) (process_message m) = m
  /\ String.length (process_message m) = 11 + String.length m
  /\ (process_message m = process_message m' <-> m = m').
Proof.
  split; [|split].
  - unfold process_message. cbn. apply substring_all.
  - unfold process_message. rewrite append_length. reflexivity.
  - split; [|intros ->; reflexivity].
    unfold process_message. apply append_inv_head.
Qed.

(** ** The message taken from the request *)

Section Extraction.

Lemma text_parts_app (a b : list Part) :
  text_parts (a ++ b) = text_parts a ++ text_parts b.
Proof.
  induction a as [|p a IH]; simpl; [reflexivity|].
  destruct (text p) as [t|]; [destruct (truthy t)|]; simpl; rewrite IH;
    reflexivity.
Qed.

Lemma text_parts_truthy (ps : list Part) :
  Forall (fun t => truthy t = true) (text_parts ps).
Proof.
  induction ps as [|p ps IH]; simpl; [constructor|].
  destruct (text p) as [t|]; [destruct (truthy t) eqn:Ht|]; try exact IH.
  constructor; assumption.
Qed.

Lemma concat_truthy (sep t : string) (ts : list string) :
  truthy t = true -> truthy (String.concat sep (t :: ts)) = true.
Proof.
  intros Ht. destruct ts; simpl; [exact Ht|]. apply truthy_append, Ht.
Qed.

(** From parts alone, the message is made of the texts that count. *)
Lemma extract_message_from_parts (rid : string) (ps : list Part) :
  extract_message (context_with_parts rid ps)
  = match text_parts ps with
    | [] => default_message
    | tp => String.concat " " tp
    end.
Proof.
  unfold extract_message, context_with_parts. cbn.
  destruct ps; reflexivity.
Qed.

End Extraction.

(** X2.  The extracted message is empty only when the request's message
    has a [content] attribute holding the empty string: without [content]
    the executor always has a non-empty text, from the parts or the
    default. *)
Theorem extract_message_empty_iff (context : RequestContext) :
  truthy (extract_message context) = false
  <-> exists r m,
        request context = Some r /\ message r = Some m
        /\ content m = Some EmptyString.
Proof.
  unfold extract_message. split.
  - destruct (request context) as [r|]; [|discriminate].
    destruct (message r) as [m|] eqn:Hm; [|discriminate].
    destruct (content m) as [c|] eqn:Hc.
    + intros H. exists r, m. destruct c; [auto|discriminate H].
    + destruct (parts m) as [[|p ps]|]; try discriminate.
      pose proof (text_parts_truthy (p :: ps)) as Ht.
      destruct (text_parts (p :: ps)) as [|t ts]; [discriminate|].
      rewrite concat_truthy by exact (Forall_inv Ht). discriminate.
  - intros (r & m & -> & Hm & Hc). rewrite Hm, Hc. reflexivity.
Qed.

(** X3.  A part without text, or with an empty text, is as good as
    absent: wherever it stands among the parts, the extracted message is
    the same without it. *)
Theorem empty_parts_do_not_count (rid : string) (a b : list Part) :
  extract_message (context_with_parts rid (a ++ {| text := None |} :: b))
  = extract_message (context_with_parts rid (a ++ b))
  /\ extract_message
       (context_with_parts rid (a ++ {| text := Some EmptyString |} :: b))
     = extract_message (context_with_parts rid (a ++ b)).
Proof.
  rewrite !extract_message_from_parts, !text_parts_app. split; reflexivity.
Qed.

(** ** The queue in arbitrary surroundings *)

Section TaskIds.

Variable context : RequestContext.

(** The task ids on the queue, in any surroundings. *)
Lemma execution_task_ids (env : Env) :
  Forall
    (fun e => event_task_id e
              = if is_message e then None else Some (request_id context))
    (events (snd (task_execution env context))).
Proof.
  unfold task_execution.
  apply run_from_Forall; [repeat constructor..|constructor].
Qed.

End TaskIds.

(** X5.  The executor never reports a failure or a cancellation: in every
    surroundings no status update on the queue says Failed or Cancelled,
    and the task is Created, Running or Completed. *)
Theorem never_failed_nor_cancelled (env : Env) (context : RequestContext) :
  Forall
    (fun e => has_state Failed e = false /\ has_state Cancelled e = false)
    (events (snd (task_execution env context)))
  /\ (task_state (events (snd (task_execution env context))) = Created
      \/ task_state (events (snd (task_execution env context))) = Running
      \/ task_state (events (snd (task_execution env context))) = Completed).
Proof.
  split.
  - unfold task_execution.
    apply run_from_Forall; [repeat constructor..|constructor].
  - unfold task_state.
    destruct (execution_statuses context env) as [j ->].
    prefix_cases j 6; auto.
Qed.

(** X6.  The task is reported Completed exactly when [execute] returns:
    an execution that an exception cuts short never says Completed, and
    one that returns always does. *)
Theorem completed_iff_returned (env : Env) (context : RequestContext) :
  task_state (events (snd (task_execution env context))) = Completed
  <-> fst (task_execution env context) = Returned.
Proof.
  destruct (execution_progress context env) as (k & Hk & Hret & Hs).
  unfold task_state. rewrite Hs, Hret. clear - Hk.
  cancel_cases k 22; try lia;
    cbn; split; intros H; solve [discriminate H | lia | reflexivity].
Qed.

(** X7.  Two tasks with different request ids never put the same status
    update or artifact update on their queues, whatever their
    surroundings: an event found on both queues is an agent text message
    (which carries no task id). *)
Theorem tasks_share_only_messages
    (env1 env2 : Env) (c1 c2 : RequestContext) (e : Event) :
  request_id c1 <> request_id c2 ->
  In e (events (snd (task_execution env1 c1))) ->
  In e (events (snd (task_execution env2 c2))) ->
  is_message e = true.
Proof.
  intros Hid H1 H2.
  pose proof (execution_task_ids c1 env1) as F1.
  pose proof (execution_task_ids c2 env2) as F2.
  rewrite Forall_forall in F1, F2.
  specialize (F1 e H1). specialize (F2 e H2).
  destruct (is_message e); [reflexivity|].
  rewrite F1 in F2. injection F2 as F2. contradiction.
Qed.

Lemma tasks_share_only_messages_witness :
  is_message
    (Message (new_agent_text_message
       "📊 Found relevant information. Generating response...")) = true.
Proof.
  apply (tasks_share_only_messages quiet quiet ping
           {| request := None; request_id := "task-2" |}).
  - discriminate.
  - cbn. do 5 right. left. reflexivity.
  - cbn. do 5 right. left. reflexivity.
Defined.

(** X8.  The executor never consults its [SimpleAgent]: whatever the
    request and the surroundings, no event on the queue is the agent's
    answer ["Processed: ..."] to any message. *)
Theorem agent_answer_is_never_published
    (env : Env) (context : RequestContext) (m : string) :
  Forall
    (fun e => e <> Message (new_agent_text_message (process_message m)))
    (events (snd (task_execution env context))).
Proof.
  unfold task_execution. apply run_from_Forall.
  - repeat (constructor; [intros H; discriminate H|]). constructor.
  - repeat (constructor; [intros H; discriminate H|]). constructor.
  - constructor.
Qed.

(** X9.  The artifact declares the size 156 for every request, while its
    content is 128 bytes around the extracted message: the declared size
    does not follow the content. *)
Theorem artifact_size_is_constant (context : RequestContext) :
  map (fun a => (size (metadata a), String.length (artifact_content a)))
    (artifacts (events (snd (task_execution quiet context))))
  = [(156, 128 + String.length (extract_message context))].
Proof.
  rewrite quiet_execution. cbn [events]. unfold execute.
  set (m := extract_message context). cbn.
  rewrite append_length. cbn. repeat f_equal. lia.
Qed.

(** ** Agent cards *)

Section Ports.

Lemma to_int_proper (z : Z) :
  Z.to_int z <> Decimal.Pos Nil /\ Z.to_int z <> Decimal.Neg Nil.
Proof.
  destruct z as [|p|p]; cbn; split; try discriminate; intros H;
    injection H as H; exact (DecimalPos.Unsigned.to_uint_nonnil p H).
Qed.

(** Reading the printed port gives the port back. *)
Lemma str_of_int_parses (z : Z) :
  option_map Z.of_int (NilZero.int_of_string (str_of_int z)) = Some z.
Proof.
  unfold str_of_int. destruct (to_int_proper z) as [Hp Hn].
  rewrite (NilZero.isi _ Hp Hn). cbn. f_equal. apply DecimalZ.of_to.
Qed.

Lemma str_of_int_inj (z z' : Z) : str_of_int z = str_of_int z' -> z = z'.
Proof.
  intros H. pose proof (str_of_int_parses z) as Hz.
  rewrite H, str_of_int_parses in Hz. injection Hz as Hz. symmetry. exact Hz.
Qed.

End Ports.

(** X10.  The card's url is ["http://localhost:<port>/"] with the port in
    decimal: the port reads back from what is printed, so two cards have
    the same url exactly when they were made for the same port. *)
Theorem card_url_determines_port (port port' : Z) :
  url (create_agent_card port)
  = ("http://localhost:" ++ str_of_int port ++ "/")%string
  /\ option_map Z.of_int (NilZero.int_of_string (str_of_int port)) = Some port
  /\ (url (create_agent_card port) = url (create_agent_card port')
      <-> port = port').
Proof.
  split; [reflexivity|]. split; [apply str_of_int_parses|].
  split; [|intros ->; reflexivity].
  cbn [url create_agent_card]. intros H.
  apply append_inv_head, append_inv_tail in H. apply str_of_int_inj, H.
Qed.


(** ** The REST handler *)

(** X12.  Whatever JSON body arrives, the handler answers 200 with the
    same acceptance: the response id and the result id are ["rest-"]
    followed by the clock reading, the state is ["accepted"], there is no
    error member, and nothing of the body shows in the response. *)
Theorem rest_handler_accepts_any_body (clock : string) (body body' : Json) :
  status_code (handle_message_send clock (inr body)) = 200%Z
  /\ at_path ["id"] (json (handle_message_send clock (inr body)))
     = Some (JString ("rest-" ++ clock))
  /\ at_path ["result"; "id"] (json (handle_message_send clock (inr body)))
     = Some (JString ("rest-" ++ clock))
  /\ at_path ["result"; "status"; "state"]
       (json (handle_message_send clock (inr body)))
     = Some (JString "accepted")
  /\ at_path ["error"] (json (handle_message_send clock (inr body))) = None
  /\ handle_message_send clock (inr body)
     = handle_message_send clock (inr body').
Proof.
  repeat split.
Qed.

(** X13.  The handler answers 200 exactly when the body parsed, and 500
    otherwise; a failure is reported as JSON-RPC error -32603 under the
    id ["error"], with the exception's text after ["Internal error: "] and
    no result member. *)
Theorem rest_handler_reports_parse_failure
    (clock : string) (parsed : string + Json) (e : string) :
  (status_code (handle_message_send clock parsed) = 200%Z
   <-> exists body, parsed = inr body)
  /\ (status_code (handle_message_send clock parsed) = 500%Z
      <-> exists e', parsed = inl e')
  /\ status_code (handle_message_send clock (inl e)) = 500%Z
  /\ at_path ["id"] (json (handle_message_send clock (inl e)))
     = Some (JString "error")
  /\ at_path ["error"; "code"] (json (handle_message_send clock (inl e)))
     = Some (JNumber (-32603))
  /\ at_path ["error"; "message"] (json (handle_message_send clock (inl e)))
     = Some (JString ("Internal error: " ++ e))
  /\ at_path ["result"] (json (handle_message_send clock (inl e))) = None.
Proof.
  split; [|split; [|repeat split]].
  - destruct parsed as [e'|body]; cbn; split.
    + discriminate.
    + intros [body H]. discriminate H.
    + intros _. exists body. reflexivity.
    + reflexivity.
  - destruct parsed as [e'|body]; cbn; split.
    + intros _. exists e'. reflexivity.
    + reflexivity.
    + discriminate.
    + intros [e' H]. discriminate H.
Qed.
